(** * Kernel mapping and input pipeline of the tensorflow-machine-learning notebooks

    Shallow embedding of the pieces of the notebooks and of the library
    calls they rest on:
    - [rffm_map]: [tf.contrib.kernel_methods.RandomFourierFeatureMapper.map],
      the Random Fourier Feature mapping the explicit-kernel notebook
      builds, sqrt(2/D) * cos(x . Omega + b);
    - [get_input_fn]: the MNIST input-function factory and the two input
      functions built from it;
    - the feature columns and the train-and-evaluate loop of the
      wide-and-deep notebook. *)

From Stdlib Require Import Reals Lra Lia.
From stdpp Require Import base list gmap strings sorting.

(* ------------------------------------------------------------------ *)
(** ** Random Fourier Feature mapping *)

Module RFFM.
Local Open Scope R_scope.

(** [RandomFourierFeatureMapper(input_dim, output_dim, stddev, seed)].
    [map] builds [omega_matrix] of shape [input_dim, output_dim] (drawn
    from a normal distribution of scale 1/stddev) and [bias] of shape
    [output_dim] (drawn uniformly from [0, 2 pi)), with numpy's generator
    seeded by [seed]. The draws themselves are left abstract: they are the
    record's fields, [omega_matrix] stored as its [input_dim] rows. *)
Record mapper := Mapper {
  input_dim : nat;
  output_dim : nat;
  omega_matrix : list (list R);
  bias : list R
}.

(** The shapes [map] gives its parameters: [input_dim] rows of
    [output_dim] entries, and [output_dim] offsets. *)
Definition well_formed (m : mapper) : bool :=
  Nat.eqb (length (omega_matrix m)) (input_dim m) &&
  forallb (fun row => Nat.eqb (length row) (output_dim m)) (omega_matrix m) &&
  Nat.eqb (length (bias m)) (output_dim m).

Fixpoint dot (u v : list R) : R :=
  match u, v with
  | a :: u', c :: v' => a * c + dot u' v'
  | _, _ => 0
  end.

Fixpoint vadd (u v : list R) : list R :=
  match u, v with
  | a :: u', c :: v' => (a + c) :: vadd u' v'
  | _, _ => []
  end.

(** Column [j] of a matrix stored by rows. *)
Definition column (om : list (list R)) (j : nat) : list R :=
  map (fun row => nth j row 0) om.

(** [matmul] of one row [x] of the input with a matrix of [n] columns:
    entry j is sum_i x_i * om_ij. *)
Definition matmul_row (x : list R) (om : list (list R)) (n : nat) : list R :=
  map (fun j => dot x (column om j)) (seq 0 n).

Inductive map_error : Type :=
| InvalidShapeError.

(** [RandomFourierFeatureMapper.map] on one row [x] of its rank-2 input:
    the row must have [input_dim] features, or [map] raises
    [InvalidShapeError]; otherwise the result is
    [sqrt(2.0 / output_dim) * cos(matmul(x, omega_matrix) + bias)].
    [matmul], the broadcast [add] and [cos] act row by row, so a batch is
    mapped row by row this way. *)
Definition rffm_map (m : mapper) (x : list R) : map_error + list R :=
  if Nat.eqb (length x) (input_dim m)
  then inr (map (fun z => sqrt (2 / INR (output_dim m)) * cos z)
               (vadd (matmul_row x (omega_matrix m) (output_dim m)) (bias m)))
  else inl InvalidShapeError.




(** A mapper from R^2 to R^1: Omega = [[1]; [0]], b = [0]. *)
Definition small_mapper : mapper := Mapper 2 1 [[1]; [0]] [0].

End RFFM.

(* ------------------------------------------------------------------ *)
(** ** MNIST input functions *)

Module InputPipeline.
Local Open Scope Z_scope.

(** One split of the MNIST data as returned by [load_mnist]: a numpy array
    of images (one row per sample) and a numpy array of integer labels. *)
Record dataset_split (Img : Type) := DatasetSplit {
  images : list Img;
  labels : list Z
}.
Arguments DatasetSplit {Img} _ _.
Arguments images {Img} _.
Arguments labels {Img} _.

(** The three splits of [tf.contrib.learn.datasets.mnist.load_mnist()]. *)
Record mnist_data (Img : Type) := MnistData {
  train : dataset_split Img;
  validation : dataset_split Img;
  test : dataset_split Img
}.
Arguments MnistData {Img} _ _ _.
Arguments train {Img} _.
Arguments validation {Img} _.
Arguments test {Img} _.

(** numpy's [astype(np.int32)] on an integer array: each element is
    reduced modulo 2^32 into the signed 32-bit range. *)
Definition astype_int32 (z : Z) : Z := (z + 2^31) mod 2^32 - 2^31.

(** Keyword arguments of [tf.train.shuffle_batch]. *)
Record shuffle_args := ShuffleArgs {
  batch_size : nat;
  capacity : nat;
  min_after_dequeue : nat;
  enqueue_many : bool;
  num_threads : nat
}.

(** [tf.train.shuffle_batch] with [enqueue_many=True]: both tensors are
    sliced along their first dimension into examples, which go through a
    shuffling queue; a batch is the examples the queue dequeues. The
    queue's random order is the parameter [draw]: given the arguments and
    the number of examples, the row indices of the dequeued batch. *)
Definition shuffle_batch {A B : Type}
    (draw : shuffle_args -> nat -> list nat)
    (xs : list A) (ys : list B) (args : shuffle_args) : list A * list B :=
  let idx := draw args (length xs) in
  (omap (fun i => xs !! i) idx, omap (fun i => ys !! i) idx).

(** [get_input_fn(dataset_split, batch_size, capacity=10000,
    min_after_dequeue=3000)] returns the closure [_input_fn]. *)
Definition get_input_fn {Img : Type} (draw : shuffle_args -> nat -> list nat)
    (dataset_split : dataset_split Img) (batch_size : nat)
    (capacity : nat) (min_after_dequeue : nat)
    : unit -> gmap string (list Img) * list Z :=
  fun _ =>
    let '(images_batch, labels_batch) :=
      shuffle_batch draw (images dataset_split)
        (map astype_int32 (labels dataset_split))
        (ShuffleArgs batch_size capacity min_after_dequeue true 4) in
    let features_map : gmap string (list Img) :=
      {[ "images" := images_batch ]} in
    (features_map, labels_batch).

(** Default values of the optional parameters of [get_input_fn]. *)
Definition default_capacity : nat := 10000.
Definition default_min_after_dequeue : nat := 3000.

(** [train_input_fn = get_input_fn(data.train, batch_size=256)] *)
Definition train_input_fn {Img : Type} (draw : shuffle_args -> nat -> list nat)
    (data : mnist_data Img) :=
  get_input_fn draw (train data) 256 default_capacity default_min_after_dequeue.

(** [eval_input_fn = get_input_fn(data.validation, batch_size=5000)] *)
Definition eval_input_fn {Img : Type} (draw : shuffle_args -> nat -> list nat)
    (data : mnist_data Img) :=
  get_input_fn draw (validation data) 5000 default_capacity
    default_min_after_dequeue.

(** What the claim expects of one invocation of an input function built
    for [split] with batch size [bs]: the features mapping has the single
    key "images", holding a batch of [bs] images, and the label batch has
    [bs] labels, each a label of the split cast to a 32-bit integer. *)
Definition input_fn_result_ok {Img : Type} (split : dataset_split Img)
    (bs : nat) (res : gmap string (list Img) * list Z) : Prop :=
  dom res.1 = {[ "images" ]} /\
  (exists images_batch, res.1 !! "images" = Some images_batch /\
                        length images_batch = bs) /\
  length res.2 = bs /\
  Forall (fun z => z ∈ map astype_int32 (labels split)) res.2 /\
  Forall (fun z => -2^31 <= z < 2^31) res.2.

(** A split as [load_mnist] delivers it: non-empty, one label per image. *)
Definition split_shape_ok {Img : Type} (split : dataset_split Img) : Prop :=
  (0 < length (labels split))%nat /\
  length (images split) = length (labels split).

(** A queue order for concrete runs: always the first example. *)
Definition draw_first (args : shuffle_args) (n : nat) : list nat :=
  repeat 0%nat (batch_size args).

(** A toy data set: three splits of one image each. *)
Definition tiny_split (l : Z) : dataset_split nat := DatasetSplit [0%nat] [l].
Definition tiny_data : mnist_data nat :=
  MnistData (tiny_split 7) (tiny_split 3) (tiny_split 5).

End InputPipeline.

(* ------------------------------------------------------------------ *)
(** ** Feature columns of the wide-and-deep model *)

Module WideDeep.

(** The [tf.feature_column] constructors the notebook uses. A crossed
    column names its components either by feature key or by column. *)
Inductive feature_column : Type :=
| numeric_column (key : string)
| categorical_column_with_vocabulary_list (key : string)
    (vocabulary_list : list string)
| categorical_column_with_hash_bucket (key : string) (hash_bucket_size : nat)
| bucketized_column (source_column : feature_column) (boundaries : list Z)
| crossed_column (keys : list cross_key) (hash_bucket_size : nat)
with cross_key : Type :=
| KeyName (key : string)
| KeyColumn (column : feature_column).

(** Continuous columns *)
Definition age := numeric_column "age".
Definition education_num := numeric_column "education_num".
Definition capital_gain := numeric_column "capital_gain".
Definition capital_loss := numeric_column "capital_loss".
Definition hours_per_week := numeric_column "hours_per_week".

Definition education := categorical_column_with_vocabulary_list "education"
  ["Bachelors"; "HS-grad"; "11th"; "Masters"; "9th"; "Some-college";
   "Assoc-acdm"; "Assoc-voc"; "7th-8th"; "Doctorate"; "Prof-school";
   "5th-6th"; "10th"; "1st-4th"; "Preschool"; "12th"].

Definition marital_status :=
  categorical_column_with_vocabulary_list "marital_status"
  ["Married-civ-spouse"; "Divorced"; "Married-spouse-absent";
   "Never-married"; "Separated"; "Married-AF-spouse"; "Widowed"].

Definition relationship :=
  categorical_column_with_vocabulary_list "relationship"
  ["Husband"; "Not-in-family"; "Wife"; "Own-child"; "Unmarried";
   "Other-relative"].

Definition workclass := categorical_column_with_vocabulary_list "workclass"
  ["Self-emp-not-inc"; "Private"; "State-gov"; "Federal-gov";
   "Local-gov"; "?"; "Self-emp-inc"; "Without-pay"; "Never-worked"].

(** To show an example of hashing *)
Definition occupation := categorical_column_with_hash_bucket "occupation" 1000.

Definition age_buckets :=
  bucketized_column age [18; 25; 30; 35; 40; 45; 50; 55; 60; 65]%Z.

Definition base_columns : list feature_column :=
  [education; marital_status; relationship; workclass; occupation;
   age_buckets].



(** The vocabulary of a vocabulary-list column. *)
Definition vocabulary_of (c : feature_column) : list string :=
  match c with
  | categorical_column_with_vocabulary_list _ v => v
  | _ => []
  end.

(** Position of a value in a vocabulary list. *)
Fixpoint vocab_index (v : list string) (s : string) : option nat :=
  match v with
  | [] => None
  | w :: v' => if bool_decide (w = s) then Some O
               else option_map S (vocab_index v' s)
  end.

(** Categorical id of one string value that reaches the column's lookup
    (a value left by [to_sparse_input] below), as the framework computes
    it: a vocabulary-list column gives the value's position in the list
    and has no id for other values (default_value = -1, no
    out-of-vocabulary buckets); a hash-bucket column gives the value's
    64-bit fingerprint modulo the bucket count. [fingerprint] is the
    framework's string fingerprint, left abstract. *)
Definition categorical_id (fingerprint : string -> N) (c : feature_column)
    (s : string) : option N :=
  match c with
  | categorical_column_with_vocabulary_list _ v => option_map N.of_nat (vocab_index v s)
  | categorical_column_with_hash_bucket _ n => Some (N.modulo (fingerprint s) (N.of_nat n))
  | _ => None
  end.






End WideDeep.

(* ------------------------------------------------------------------ *)
(** ** Transformations of the wide-and-deep feature columns *)

Module WideDeepFeatures.
Import WideDeep.

(** Bucket of a value in a bucketized column, as the framework's
    Bucketize kernel computes it: the position of the first boundary
    greater than the value ([std::upper_bound]), so buckets include their
    left boundary and exclude their right one. *)
Fixpoint bucketize (boundaries : list Z) (v : Z) : nat :=
  match boundaries with
  | [] => O
  | bnd :: rest => if Z.ltb v bnd then O else S (bucketize rest v)
  end.

(** The boundaries the notebook gives [age_buckets]. *)
Definition boundaries_of (c : feature_column) : list Z :=
  match c with
  | bucketized_column _ bs => bs
  | _ => []
  end.

(** Number of ids a categorical column can produce. *)
Definition num_buckets (c : feature_column) : nat :=
  match c with
  | categorical_column_with_vocabulary_list _ v => length v
  | categorical_column_with_hash_bucket _ n => n
  | bucketized_column _ bs => S (length bs)
  | crossed_column _ n => n
  | numeric_column _ => O
  end.



End WideDeepFeatures.

(* ------------------------------------------------------------------ *)
(** ** The train-and-evaluate loop of the wide-and-deep notebook *)

Module WideDeepTraining.

(** The command-line flags the loop reads. *)
Record flags := Flags {
  train_epochs : Z;
  epochs_per_eval : Z;
  batch_size : Z;
  train_data : string;
  test_data : string
}.

(** What one run of the loop does, in order: the estimator calls (with the
    arguments passed to [input_fn]) and the printed lines. *)
Inductive event (V : Type) : Type :=
| Train (data_file : string) (num_epochs : Z) (shuffle : bool) (batch : Z)
| Evaluate (data_file : string) (num_epochs : Z) (shuffle : bool) (batch : Z)
| PrintEpoch (epoch : Z)
| PrintRule
| PrintMetric (key : string) (value : V).
Arguments Train {V} _ _ _ _.
Arguments Evaluate {V} _ _ _ _.
Arguments PrintEpoch {V} _.
Arguments PrintRule {V}.
Arguments PrintMetric {V} _ _.

(** The exceptions the loop can end with: the division of the [range]
    bound, a key missing from the metrics dict, or an exception raised by
    [model.train] or [model.evaluate] (from the estimator, the [input_fn]
    it calls or the file it reads), named by its class. *)
Inductive error : Type :=
| ZeroDivisionError
| KeyError (key : string)
| Raised (exception : string).

(** Python's [<] on strings: lexicographic on code points. *)
Definition string_le (a b : string) : Prop := String.leb a b = true.
#[global] Instance string_le_dec : RelDecision string_le.
Proof. intros a b. unfold string_le. apply _. Defined.

(** [sorted(results)]: the keys of the dict in ascending order. *)
Definition sorted_keys {V : Type} (results : gmap string V) : list string :=
  merge_sort string_le ((map_to_list results).*1).

(** [for key in keys: print('%s: %s' % (key, results[key]))]; a missing
    key raises [KeyError] after the lines printed so far. *)
Fixpoint print_metrics {V : Type} (results : gmap string V) (keys : list string)
    : list (event V) * option error :=
  match keys with
  | [] => ([], None)
  | key :: keys' =>
      match results !! key with
      | None => ([], Some (KeyError key))
      | Some v =>
          let '(t, e) := print_metrics results keys' in
          (PrintMetric key v :: t, e)
      end
  end.

(** Body of the loop for iteration [n]. [train_exc] is the exception
    [model.train] raises, if any; [eval_out] is the exception
    [model.evaluate] raises or the dict of metrics it returns. An
    exception ends the iteration where it is raised. *)
Definition loop_body {V : Type} (fl : flags) (train_exc : option string)
    (eval_out : string + gmap string V) (n : nat) : list (event V) * option error :=
  match train_exc, eval_out with
  | Some x, _ => ([Train (train_data fl) (epochs_per_eval fl) true (batch_size fl)],
                  Some (Raised x))
  | None, inl x => ([Train (train_data fl) (epochs_per_eval fl) true (batch_size fl);
                     Evaluate (test_data fl) 1 false (batch_size fl)],
                    Some (Raised x))
  | None, inr results =>
      let '(t, e) := print_metrics results (sorted_keys results) in
      ([Train (train_data fl) (epochs_per_eval fl) true (batch_size fl);
        Evaluate (test_data fl) 1 false (batch_size fl);
        PrintEpoch ((Z.of_nat n + 1) * epochs_per_eval fl);
        PrintRule] ++ t, e)
  end.

(** The iterations [ns] of the loop, stopping at the first exception;
    [train_exc n] and [eval_out n] are what the two calls of iteration [n]
    do. *)
Fixpoint run_iterations {V : Type} (fl : flags) (train_exc : nat -> option string)
    (eval_out : nat -> string + gmap string V) (ns : list nat)
    : list (event V) * option error :=
  match ns with
  | [] => ([], None)
  | n :: ns' =>
      let '(t, e) := loop_body fl (train_exc n) (eval_out n) n in
      match e with
      | Some _ => (t, e)
      | None => let '(t', e') := run_iterations fl train_exc eval_out ns' in (t ++ t', e')
      end
  end.

(** [for n in range(FLAGS.train_epochs // FLAGS.epochs_per_eval): ...];
    [//] is floor division and raises on a zero divisor, and [range] of a
    non-positive number is empty. *)
Definition run_loop {V : Type} (fl : flags) (train_exc : nat -> option string)
    (eval_out : nat -> string + gmap string V) : list (event V) * option error :=
  if Z.eqb (epochs_per_eval fl) 0 then ([], Some ZeroDivisionError)
  else run_iterations fl train_exc eval_out
         (seq 0 (Z.to_nat (Z.div (train_epochs fl) (epochs_per_eval fl)))).

(** A run of the loop in which [model.train] and [model.evaluate] return
    normally, [model.evaluate] returning [eval_results n] in iteration
    [n]. *)
Definition train_and_evaluate {V : Type} (fl : flags)
    (eval_results : nat -> gmap string V) : list (event V) * option error :=
  run_loop fl (fun _ => None) (fun n => inr (eval_results n)).

(** Number of epochs the [Train] events of a trace ask for. *)
Fixpoint trained_epochs {V : Type} (t : list (event V)) : Z :=
  match t with
  | [] => 0
  | Train _ k _ _ :: t' => k + trained_epochs t'
  | _ :: t' => trained_epochs t'
  end.

(** Keys of the metric lines of a trace, in order. *)
Fixpoint metric_keys {V : Type} (t : list (event V)) : list string :=
  match t with
  | [] => []
  | PrintMetric k _ :: t' => k :: metric_keys t'
  | _ :: t' => metric_keys t'
  end.

End WideDeepTraining.

(* ------------------------------------------------------------------ *)
(** ** Proofs about the Random Fourier Feature mapping *)

Module RFFMFacts.
Import RFFM.
Local Open Scope R_scope.

(** *** Auxiliary facts about the vector operations *)



Lemma length_vadd (u v : list R) :
  length (vadd u v) = Nat.min (length u) (length v).
Proof.
  revert v. induction u as [|a u IH]; intros [|c v]; simpl; auto.
Qed.





Lemma length_matmul_row (x : list R) (om : list (list R)) (n : nat) :
  length (matmul_row x om n) = n.
Proof. unfold matmul_row. rewrite length_map, length_seq. reflexivity. Qed.


Lemma well_formed_spec (m : mapper) :
  well_formed m = true ->
  length (omega_matrix m) = input_dim m /\
  (forall row, In row (omega_matrix m) -> length row = output_dim m) /\
  length (bias m) = output_dim m.
Proof.
  unfold well_formed. intros H.
  apply andb_true_iff in H as [H Hb]. apply andb_true_iff in H as [Ho Hr].
  apply Nat.eqb_eq in Ho, Hb. rewrite forallb_forall in Hr.
  repeat split; auto. intros row Hin. apply Nat.eqb_eq. auto.
Qed.

(** [map] succeeds exactly on rows of [input_dim] features. *)
Lemma rffm_map_inr (m : mapper) (x y : list R) :
  rffm_map m x = inr y <->
  length x = input_dim m /\
  y = map (fun z => sqrt (2 / INR (output_dim m)) * cos z)
          (vadd (matmul_row x (omega_matrix m) (output_dim m)) (bias m)).
Proof.
  unfold rffm_map. destruct (Nat.eqb_spec (length x) (input_dim m)) as [E|E].
  - split; [intros H; injection H as <-; auto | intros [_ ->]; reflexivity].
  - split; [discriminate | intros [H _]; contradiction].
Qed.

Lemma length_rffm_map (m : mapper) (x y : list R) :
  well_formed m = true -> rffm_map m x = inr y -> length y = output_dim m.
Proof.
  intros Hw Hy. apply rffm_map_inr in Hy as [_ ->].
  destruct (well_formed_spec m Hw) as (_ & _ & Hb).
  rewrite length_map, length_vadd, length_matmul_row. lia.
Qed.

(** Every entry of a mapped row is sqrt(2/D) times a cosine. *)
Lemma rffm_map_entries (m : mapper) (x y : list R) :
  rffm_map m x = inr y ->
  Forall (fun v => exists z, v = sqrt (2 / INR (output_dim m)) * cos z) y.
Proof.
  intros Hy. apply rffm_map_inr in Hy as [_ ->].
  apply List.Forall_forall. intros v Hv. apply in_map_iff in Hv as (z & <- & _).
  eauto.
Qed.

Lemma scaled_cos_bound (s z : R) : 0 <= s -> - s <= s * cos z <= s.
Proof.
  intros Hs. pose proof (COS_bound z) as [Hlo Hhi]. split; nra.
Qed.











End RFFMFacts.

(* ------------------------------------------------------------------ *)
(** ** Proofs about the MNIST input functions *)

Module InputPipelineFacts.
Import InputPipeline.
Local Open Scope Z_scope.

Lemma astype_int32_range (z : Z) : -2^31 <= astype_int32 z < 2^31.
Proof.
  unfold astype_int32.
  pose proof (Z.mod_pos_bound (z + 2^31) (2^32) ltac:(lia)). lia.
Qed.

Lemma omap_lookup_length {A : Type} (l : list A) (idx : list nat) :
  Forall (fun i => (i < length l)%nat) idx ->
  length (omap (fun i => l !! i) idx) = length idx.
Proof.
  induction 1 as [|i idx Hi _ IH]; [reflexivity|].
  simpl. destruct (lookup_lt_is_Some_2 l i Hi) as [x ->]. simpl. f_equal. exact IH.
Qed.

Lemma omap_lookup_elem {A : Type} (l : list A) (idx : list nat) :
  Forall (fun y => y ∈ l) (omap (fun i => l !! i) idx).
Proof.
  apply Forall_forall. intros y Hy.
  apply list_elem_of_omap in Hy as (i & _ & Hi).
  by eapply list_elem_of_lookup_2.
Qed.

Section shuffle.
Context {Img : Type}.

(** The shuffling queue dequeues [batch_size] examples, each one of the
    examples it was fed. *)
Variable draw : shuffle_args -> nat -> list nat.
Hypothesis draw_spec : forall args n, (0 < n)%nat ->
  length (draw args n) = batch_size args /\
  Forall (fun i => (i < n)%nat) (draw args n).

Lemma get_input_fn_result (split : dataset_split Img) (bs cap mad : nat) :
  split_shape_ok split ->
  input_fn_result_ok split bs (get_input_fn draw split bs cap mad tt).
Proof.
  intros [Hpos Hlen]. unfold get_input_fn, shuffle_batch. simpl.
  destruct (draw_spec (ShuffleArgs bs cap mad true 4)
              (length (images split)) ltac:(lia)) as [Hn Hall].
  simpl in Hn.
  set (idx := draw (ShuffleArgs bs cap mad true 4) (length (images split)))
    in *.
  assert (Hall' : Forall (fun i => (i < length (map astype_int32
                                                   (labels split)))%nat) idx).
  { rewrite length_map, <- Hlen. exact Hall. }
  unfold input_fn_result_ok; simpl. split; [|split; [|split; [|split]]].
  - apply dom_singleton_L.
  - eexists. split; [apply lookup_singleton_eq|].
    rewrite omap_lookup_length; assumption.
  - rewrite omap_lookup_length; assumption.
  - apply omap_lookup_elem.
  - eapply Forall_impl; [apply omap_lookup_elem|]. intros z Hz.
    apply list_elem_of_fmap in Hz as (w & -> & _).
    apply astype_int32_range.
Qed.

(** Claim C9: invoking an input function returned by [get_input_fn]
    yields a features mapping whose only key is "images" and a label
    batch of labels of the split cast to 32-bit integers, with the batch
    size fixed when the closure was made: 256 for [train_input_fn] and
    5000 for [eval_input_fn]. *)
Theorem get_input_fn_batches (data : mnist_data Img)
    (split : dataset_split Img) (bs cap mad : nat) :
  split_shape_ok split ->
  split_shape_ok (train data) -> split_shape_ok (validation data) ->
  input_fn_result_ok split bs (get_input_fn draw split bs cap mad tt) /\
  input_fn_result_ok (train data) 256 (train_input_fn draw data tt) /\
  input_fn_result_ok (validation data) 5000 (eval_input_fn draw data tt).
Proof.
  intros Hs Ht Hv. split; [|split].
  - by apply get_input_fn_result.
  - by apply get_input_fn_result.
  - by apply get_input_fn_result.
Qed.

End shuffle.

Lemma draw_first_spec : forall args n, (0 < n)%nat ->
  length (draw_first args n) = batch_size args /\
  Forall (fun i => (i < n)%nat) (draw_first args n).
Proof.
  intros args n Hn. unfold draw_first. split.
  - apply repeat_length.
  - apply Forall_forall. intros i Hi.
    apply list_elem_of_In, repeat_spec in Hi. lia.
Qed.

Lemma get_input_fn_batches_witness :
  split_shape_ok (tiny_split 4) /\ split_shape_ok (train tiny_data) /\
  split_shape_ok (validation tiny_data) /\
  (input_fn_result_ok (tiny_split 4) 2
     (get_input_fn draw_first (tiny_split 4) 2 10 3 tt) /\
   input_fn_result_ok (train tiny_data) 256
     (train_input_fn draw_first tiny_data tt) /\
   input_fn_result_ok (validation tiny_data) 5000
     (eval_input_fn draw_first tiny_data tt)).
Proof.
  assert (H : forall l, split_shape_ok (tiny_split l)).
  { intros l. split; simpl; lia. }
  split; [apply H|]. split; [apply H|]. split; [apply H|].
  apply (get_input_fn_batches draw_first draw_first_spec tiny_data
           (tiny_split 4) 2 10 3); apply H.
Defined.

End InputPipelineFacts.

(* ------------------------------------------------------------------ *)
(** ** Proofs about the wide-and-deep feature columns *)

Module WideDeepFacts.
Import WideDeep.






End WideDeepFacts.

(* ------------------------------------------------------------------ *)
(** ** Further properties of the Random Fourier Feature mapping *)

Module RFFMExtra.
Import RFFM RFFMFacts.
Local Open Scope R_scope.




Lemma dot_abs_bound (s : R) (u v : list R) :
  Forall (fun y => Rabs y <= s) u -> Forall (fun y => Rabs y <= s) v ->
  Rabs (dot u v) <= INR (length u) * (s * s).
Proof.
  intros Hu. revert v. induction Hu as [|a u Ha Hu IH]; intros v Hv.
  - simpl. rewrite Rabs_R0. lra.
  - assert (Hs : 0 <= s) by (eapply Rle_trans; [apply Rabs_pos|exact Ha]).
    assert (Hss : 0 <= s * s) by nra.
    destruct v as [|c v]; cbn [dot length].
    + rewrite Rabs_R0. pose proof (pos_INR (S (length u))). nra.
    + inversion Hv as [|? ? Hc Hv']; subst.
      rewrite S_INR.
      eapply Rle_trans; [apply Rabs_triang|].
      rewrite Rabs_mult.
      assert (Rabs a * Rabs c <= s * s).
      { apply Rmult_le_compat; auto using Rabs_pos. }
      specialize (IH v Hv'). lra.
Qed.

Lemma dot_self_nonneg (u : list R) : 0 <= dot u u.
Proof.
  induction u as [|a u IH]; simpl; [lra|].
  pose proof (Rle_0_sqr a). unfold Rsqr in *. lra.
Qed.

Lemma rffm_map_abs_bound (m : mapper) (x y : list R) :
  rffm_map m x = inr y ->
  Forall (fun v => Rabs v <= sqrt (2 / INR (output_dim m))) y.
Proof.
  intros Hy. eapply Forall_impl; [exact (rffm_map_entries m x y Hy)|].
  intros v (z & ->). apply Rabs_le, scaled_cos_bound, sqrt_pos.
Qed.


(** The inner product of two mapped rows, the kernel estimate, lies in
    [-2, 2], and the squared norm of a mapped row in [0, 2], whatever the
    output dimension: each of the D entries is at most sqrt(2/D) in
    absolute value. *)
Theorem RFFM_inner_product_bounds (m : mapper) (x z y w : list R) :
  well_formed m = true -> rffm_map m x = inr y -> rffm_map m z = inr w ->
  0 <= dot y y <= 2 /\ Rabs (dot y w) <= 2.
Proof.
  intros Hw Hy Hz.
  assert (Hbound : forall u, Rabs (dot y u) <= INR (output_dim m) *
             (sqrt (2 / INR (output_dim m)) * sqrt (2 / INR (output_dim m))) ->
                   Rabs (dot y u) <= 2).
  { intros u Hu. destruct (output_dim m) as [|D] eqn:ED.
    - simpl in Hu. lra.
    - pose proof (lt_0_INR (S D) ltac:(lia)).
      rewrite sqrt_sqrt in Hu
        by (unfold Rdiv; apply Rmult_le_pos; [lra | left; apply Rinv_0_lt_compat; lra]).
      replace (INR (S D) * (2 / INR (S D))) with 2 in Hu by (field; lra).
      exact Hu. }
  pose proof (rffm_map_abs_bound m x y Hy) as Hby.
  pose proof (rffm_map_abs_bound m z w Hz) as Hbw.
  pose proof (length_rffm_map m x y Hw Hy) as Hlen.
  split; [split|].
  - apply dot_self_nonneg.
  - pose proof (dot_abs_bound _ _ _ Hby Hby) as H. rewrite Hlen in H.
    pose proof (Hbound y H). pose proof (Rle_abs (dot y y)). lra.
  - pose proof (dot_abs_bound _ _ _ Hby Hbw) as H. rewrite Hlen in H.
    exact (Hbound w H).
Qed.


Lemma RFFM_inner_product_bounds_witness :
  exists y w, well_formed small_mapper = true /\
    rffm_map small_mapper [0; 0] = inr y /\ rffm_map small_mapper [1; 1] = inr w /\
    (0 <= dot y y <= 2 /\ Rabs (dot y w) <= 2).
Proof.
  eexists. eexists. split; [reflexivity|].
  split; [reflexivity|]. split; [reflexivity|].
  eapply (RFFM_inner_product_bounds small_mapper [0; 0] [1; 1]); reflexivity.
Defined.

End RFFMExtra.

(* ------------------------------------------------------------------ *)
(** ** Further properties of the MNIST input functions *)

Module InputPipelineExtra.
Import InputPipeline InputPipelineFacts.
Local Open Scope Z_scope.

Lemma astype_int32_mod (z : Z) : astype_int32 z mod 2^32 = z mod 2^32.
Proof.
  unfold astype_int32.
  rewrite (Z.mod_eq (z + 2^31) (2^32)) by lia.
  replace (z + 2 ^ 31 - 2 ^ 32 * ((z + 2 ^ 31) / 2 ^ 32) - 2 ^ 31)
    with (z + (- ((z + 2 ^ 31) / 2 ^ 32)) * 2^32) by ring.
  apply Z_mod_plus_full.
Qed.

Lemma astype_int32_small (w : Z) : -2^31 <= w < 2^31 -> astype_int32 w = w.
Proof.
  intros Hw. unfold astype_int32. rewrite Z.mod_small by lia. ring.
Qed.

Lemma astype_int32_congr (z w : Z) :
  z mod 2^32 = w mod 2^32 -> astype_int32 z = astype_int32 w.
Proof.
  intros H. unfold astype_int32.
  rewrite (Zplus_mod z), (Zplus_mod w), H. reflexivity.
Qed.

(** [astype(np.int32)] sends a label [z] to the one value of the signed
    32-bit range that is congruent to [z] modulo 2^32. *)
Theorem astype_int32_spec (z w : Z) :
  astype_int32 z = w <-> (-2^31 <= w < 2^31 /\ w mod 2^32 = z mod 2^32).
Proof.
  split.
  - intros <-. split; [apply astype_int32_range | apply astype_int32_mod].
  - intros [Hw Hm]. rewrite <- (astype_int32_small w Hw).
    symmetry. apply astype_int32_congr. exact Hm.
Qed.

(** Labels already in the 32-bit range, such as the digits 0..9, are left
    unchanged by the cast. *)
Theorem astype_int32_id (z : Z) :
  -2^31 <= z < 2^31 -> astype_int32 z = z.
Proof. intros Hz. unfold astype_int32. rewrite Z.mod_small by lia. ring. Qed.

Lemma astype_int32_id_witness : (-2^31 <= 9 < 2^31) /\ astype_int32 9 = 9.
Proof. split; [lia|]. apply astype_int32_id. lia. Defined.

End InputPipelineExtra.

(* ------------------------------------------------------------------ *)
(** ** Further properties of the wide-and-deep feature columns *)

Module WideDeepExtra.
Import WideDeep WideDeepFeatures WideDeepFacts.

Lemma vocab_index_lookup (v : list string) (s : string) (k : nat) :
  vocab_index v s = Some k -> v !! k = Some s.
Proof.
  revert k. induction v as [|w v IH]; intros k Hk; simpl in Hk;
    [discriminate|].
  case_bool_decide as Hws.
  - injection Hk as <-. subst w. reflexivity.
  - destruct (vocab_index v s) as [k'|] eqn:E; simpl in Hk; [|discriminate].
    injection Hk as <-. simpl. apply IH. reflexivity.
Qed.

Lemma vocab_index_of_lookup (v : list string) (s : string) (k : nat) :
  NoDup v -> v !! k = Some s -> vocab_index v s = Some k.
Proof.
  intros Hnd. revert k. induction Hnd as [|w v Hw Hnd IH]; intros k Hk;
    [discriminate|].
  simpl. case_bool_decide as Hws.
  - subst w. destruct k as [|k]; [reflexivity|].
    simpl in Hk. exfalso. apply Hw. by eapply list_elem_of_lookup_2.
  - destruct k as [|k]; simpl in Hk; [injection Hk as ->; congruence|].
    rewrite (IH k Hk). reflexivity.
Qed.

(** The id a vocabulary-list column gives a value decodes back to that
    value: it is a position of the value in the vocabulary list. *)
Theorem vocabulary_id_roundtrip (fingerprint : string -> N) (key : string)
    (v : list string) (s : string) (k : N) :
  categorical_id fingerprint (categorical_column_with_vocabulary_list key v) s
    = Some k ->
  v !! N.to_nat k = Some s.
Proof.
  simpl. destruct (vocab_index v s) as [j|] eqn:E; simpl; [|discriminate].
  intros Hk. injection Hk as <-. rewrite Nat2N.id.
  by apply vocab_index_lookup.
Qed.

Lemma vocabulary_id_roundtrip_witness :
  categorical_id (fun _ => 0%N) relationship "Wife" = Some 2%N /\
  ["Husband"; "Not-in-family"; "Wife"; "Own-child"; "Unmarried";
   "Other-relative"] !! N.to_nat 2 = Some "Wife".
Proof.
  split; [reflexivity|].
  apply (vocabulary_id_roundtrip (fun _ => 0%N) "relationship"). reflexivity.
Defined.

(** The vocabularies of education, marital_status, relationship and
    workclass have no repeated entry, so each of these columns numbers its
    values 0, 1, ... in list order: the value at position k gets id k. *)
Theorem vocabulary_ids_bijective (fingerprint : string -> N) :
  Forall (fun c => NoDup (vocabulary_of c) /\
            forall k s, vocabulary_of c !! k = Some s ->
                        categorical_id fingerprint c s = Some (N.of_nat k))
         [education; marital_status; relationship; workclass].
Proof.
  assert (H : forall key v, NoDup v ->
    NoDup (vocabulary_of (categorical_column_with_vocabulary_list key v)) /\
    forall k s, vocabulary_of (categorical_column_with_vocabulary_list key v)
                  !! k = Some s ->
      categorical_id fingerprint (categorical_column_with_vocabulary_list key v) s
        = Some (N.of_nat k)).
  { intros key v Hnd. split; [exact Hnd|]. intros k s Hk. simpl in *.
    rewrite (vocab_index_of_lookup v s k Hnd Hk). reflexivity. }
  repeat apply List.Forall_cons; try apply List.Forall_nil; apply H; apply (bool_decide_unpack _); vm_compute; reflexivity.
Qed.

Lemma bucketize_le_length (bs : list Z) (v : Z) : (bucketize bs v <= length bs)%nat.
Proof.
  induction bs as [|bnd bs IH]; simpl; [lia|]. destruct (Z.ltb v bnd); lia.
Qed.

Lemma bucketize_mono (bs : list Z) (v w : Z) :
  (v <= w)%Z -> (bucketize bs v <= bucketize bs w)%nat.
Proof.
  intros Hvw. induction bs as [|bnd bs IH]; simpl; [lia|].
  destruct (Z.ltb v bnd) eqn:E1; [lia|].
  destruct (Z.ltb w bnd) eqn:E2; [|lia].
  apply Z.ltb_lt in E2. apply Z.ltb_ge in E1. lia.
Qed.

Lemma bucketize_below (bs : list Z) (bnd v : Z) :
  (v < bnd)%Z -> bucketize (bnd :: bs) v = O.
Proof. intros H. simpl. apply Z.ltb_lt in H. rewrite H. reflexivity. Qed.

Lemma bucketize_above (bs : list Z) (v : Z) :
  Forall (fun bnd => (bnd <= v)%Z) bs -> bucketize bs v = length bs.
Proof.
  induction 1 as [|bnd bs Hb _ IH]; simpl; [reflexivity|].
  destruct (Z.ltb v bnd) eqn:E; [apply Z.ltb_lt in E; lia|]. rewrite IH.
  reflexivity.
Qed.

Lemma bucketize_between (bs : list Z) (i : nat) (lo hi v : Z) :
  StronglySorted Z.le bs -> bs !! i = Some lo -> bs !! S i = Some hi ->
  (lo <= v < hi)%Z -> bucketize bs v = S i.
Proof.
  intros Hs. revert i. induction Hs as [|bnd bs Hs IH Hall]; intros i Hlo Hhi Hv;
    [discriminate|].
  simpl. destruct (Z.ltb v bnd) eqn:E.
  - apply Z.ltb_lt in E. exfalso.
    destruct i as [|i]; simpl in Hlo; [injection Hlo as ->; lia|].
    assert (bnd <= lo)%Z.
    { eapply List.Forall_forall; [exact Hall|].
      apply list_elem_of_In. by eapply list_elem_of_lookup_2. }
    lia.
  - f_equal. destruct i as [|i]; simpl in Hlo, Hhi.
    + destruct bs as [|b1 bs]; [discriminate|]. simpl in Hhi.
      injection Hhi as ->. apply bucketize_below. lia.
    + exact (IH i Hlo Hhi Hv).
Qed.

(** [age_buckets] splits ages into 11 buckets: below 18 is bucket 0, from
    65 on is bucket 10, an age in [b_i, b_(i+1)) between consecutive
    boundaries is bucket i+1, and the bucket never decreases as the age
    grows. *)
Theorem age_buckets_bucketize :
  let bs := boundaries_of age_buckets in
  num_buckets age_buckets = 11%nat /\
  (forall v, (bucketize bs v < num_buckets age_buckets)%nat) /\
  (forall v, (v < 18)%Z -> bucketize bs v = O) /\
  (forall v, (65 <= v)%Z -> bucketize bs v = 10%nat) /\
  (forall i lo hi v, bs !! i = Some lo -> bs !! S i = Some hi ->
     (lo <= v < hi)%Z -> bucketize bs v = S i) /\
  (forall v w, (v <= w)%Z -> (bucketize bs v <= bucketize bs w)%nat).
Proof.
  intros bs. split; [reflexivity|]. split; [|split; [|split; [|split]]].
  - intros v. pose proof (bucketize_le_length bs v). simpl in *. lia.
  - intros v Hv. apply bucketize_below. exact Hv.
  - intros v Hv. apply bucketize_above.
    repeat apply List.Forall_cons; try apply List.Forall_nil; lia.
  - intros i lo hi v. apply bucketize_between.
    repeat apply SSorted_cons; try apply SSorted_nil;
      repeat apply List.Forall_cons; try apply List.Forall_nil; lia.
  - intros v w. apply bucketize_mono.
Qed.





End WideDeepExtra.

(* ------------------------------------------------------------------ *)
(** ** Properties of the train-and-evaluate loop *)

Module WideDeepTrainingFacts.
Import WideDeepTraining.
Local Open Scope Z_scope.

#[local] Instance string_le_total : Total string_le.
Proof. intros a b. apply String.leb_total. Qed.

Lemma sorted_keys_spec {V : Type} (results : gmap string V) :
  Sorted string_le (sorted_keys results) /\ NoDup (sorted_keys results) /\
  (forall k, k ∈ sorted_keys results <-> is_Some (results !! k)).
Proof.
  unfold sorted_keys.
  pose proof (merge_sort_Permutation string_le ((map_to_list results).*1)) as Hp.
  split; [apply Sorted_merge_sort; exact string_le_total|]. split.
  - rewrite Hp. apply NoDup_fst_map_to_list.
  - intros k. rewrite Hp, list_elem_of_fmap. split.
    + intros ([k' v] & -> & Hin). apply elem_of_map_to_list in Hin. simpl. eauto.
    + intros [v Hv]. exists (k, v). split; [reflexivity|].
      by apply elem_of_map_to_list.
Qed.

Lemma print_metrics_ok {V : Type} (results : gmap string V) (keys : list string) :
  Forall (fun k => is_Some (results !! k)) keys ->
  (print_metrics results keys).2 = None /\
  metric_keys (print_metrics results keys).1 = keys /\
  Forall (fun ev => exists k v, ev = PrintMetric k v) (print_metrics results keys).1 /\
  (forall k v, PrintMetric k v ∈ (print_metrics results keys).1 ->
               results !! k = Some v).
Proof.
  induction 1 as [|key keys [v Hv] _ IH]; simpl.
  - split; [reflexivity|]. split; [reflexivity|]. split; [constructor|].
    intros k v Hin. inversion Hin.
  - rewrite Hv. destruct (print_metrics results keys) as [t e]; simpl in *.
    destruct IH as (He & Hk & Hall & Hval).
    split; [exact He|]. split; [rewrite Hk; reflexivity|].
    split; [constructor; eauto|].
    intros k w Hin. apply elem_of_cons in Hin as [Heq|Hin].
    + injection Heq as -> ->. exact Hv.
    + by apply Hval.
Qed.

Lemma sorted_keys_present {V : Type} (results : gmap string V) :
  Forall (fun k => is_Some (results !! k)) (sorted_keys results).
Proof.
  apply Forall_forall. intros k Hk. by apply sorted_keys_spec.
Qed.

Lemma loop_body_shape {V : Type} (fl : flags) (results : gmap string V) (n : nat) :
  exists t, loop_body fl None (inr results) n =
    ([Train (train_data fl) (epochs_per_eval fl) true (batch_size fl);
      Evaluate (test_data fl) 1 false (batch_size fl);
      PrintEpoch ((Z.of_nat n + 1) * epochs_per_eval fl);
      PrintRule] ++ t, None) /\
    t = (print_metrics results (sorted_keys results)).1 /\
    Forall (fun ev => exists k v, ev = PrintMetric k v) t.
Proof.
  destruct (print_metrics_ok results _ (sorted_keys_present results))
    as (He & _ & Hall & _).
  unfold loop_body.
  destruct (print_metrics results (sorted_keys results)) as [t e] eqn:E.
  simpl in *. subst e. eauto.
Qed.

Lemma loop_body_error {V : Type} (fl : flags) (train_exc : option string)
    (eval_out : string + gmap string V) (n : nat) (err : error) :
  (loop_body fl train_exc eval_out n).2 = Some err ->
  exists x, (train_exc = Some x \/ (train_exc = None /\ eval_out = inl x)) /\
            err = Raised x.
Proof.
  destruct train_exc as [x|]; [|destruct eval_out as [x|results]].
  - simpl. intros H. injection H as <-. eauto.
  - simpl. intros H. injection H as <-. eauto.
  - destruct (loop_body_shape fl results n) as (t & -> & _). discriminate.
Qed.

Lemma run_iterations_cons {V : Type} (fl : flags) (eval_results : nat -> gmap string V)
    (n : nat) (ns : list nat) :
  run_iterations fl (fun _ => None) (fun k => inr (eval_results k)) (n :: ns) =
  ((loop_body fl None (inr (eval_results n)) n).1 ++
     (run_iterations fl (fun _ => None) (fun k => inr (eval_results k)) ns).1,
   (run_iterations fl (fun _ => None) (fun k => inr (eval_results k)) ns).2).
Proof.
  cbn [run_iterations]. destruct (loop_body_shape fl (eval_results n) n) as (t & -> & _).
  destruct (run_iterations fl (fun _ => None) (fun k => inr (eval_results k)) ns).
  reflexivity.
Qed.

Lemma iterations_error {V : Type} (fl : flags) (train_exc : nat -> option string)
    (eval_out : nat -> string + gmap string V) (ns : list nat) (err : error) :
  (run_iterations fl train_exc eval_out ns).2 = Some err ->
  exists n x, In n ns /\
    (train_exc n = Some x \/ (train_exc n = None /\ eval_out n = inl x)) /\
    err = Raised x.
Proof.
  induction ns as [|n ns IH]; simpl; [discriminate|].
  destruct (loop_body fl (train_exc n) (eval_out n) n) as [t [e|]] eqn:Eb.
  - simpl. intros H. injection H as <-.
    destruct (loop_body_error fl (train_exc n) (eval_out n) n e) as (x & Hx & ->);
      [rewrite Eb; reflexivity|].
    exists n, x. auto.
  - destruct (run_iterations fl train_exc eval_out ns) as [t' e'] eqn:Er.
    simpl. intros H. destruct (IH H) as (k & x & Hk & Hx & ->). exists k, x. auto.
Qed.

Lemma iterations_ok {V : Type} (fl : flags) (train_exc : nat -> option string)
    (eval_out : nat -> string + gmap string V) (ns : list nat) :
  (forall n, train_exc n = None /\ exists r, eval_out n = inr r) ->
  (run_iterations fl train_exc eval_out ns).2 = None.
Proof.
  intros Hok. destruct ((run_iterations fl train_exc eval_out ns).2) as [err|] eqn:E;
    [|reflexivity].
  destruct (iterations_error fl train_exc eval_out ns err E)
    as (n & x & _ & [Hx|[_ Hx]] & _);
    destruct (Hok n) as [Ht [r Hr]]; congruence.
Qed.

Lemma trained_epochs_app {V : Type} (t1 t2 : list (event V)) :
  trained_epochs (t1 ++ t2) = trained_epochs t1 + trained_epochs t2.
Proof.
  induction t1 as [|[] t1 IH]; simpl; rewrite ?IH; lia.
Qed.

Lemma trained_epochs_metrics {V : Type} (t : list (event V)) :
  Forall (fun ev => exists k v, ev = PrintMetric k v) t -> trained_epochs t = 0.
Proof. induction 1 as [|ev t (k & v & ->) _ IH]; simpl; auto. Qed.

Lemma trained_epochs_body {V : Type} (fl : flags) (results : gmap string V) (n : nat) :
  trained_epochs (loop_body fl None (inr results) n).1 = epochs_per_eval fl.
Proof.
  destruct (loop_body_shape fl results n) as (t & -> & _ & Hall). simpl.
  rewrite (trained_epochs_metrics t Hall). lia.
Qed.

Lemma trained_epochs_iterations {V : Type} (fl : flags)
    (eval_results : nat -> gmap string V) (ns : list nat) :
  trained_epochs (run_iterations fl (fun _ => None) (fun k => inr (eval_results k)) ns).1
  = Z.of_nat (length ns) * epochs_per_eval fl.
Proof.
  induction ns as [|n ns IH]; [reflexivity|].
  rewrite run_iterations_cons. cbn [fst].
  rewrite trained_epochs_app, trained_epochs_body, IH. simpl length. lia.
Qed.

(** How the loop ends. With [epochs_per_eval] = 0 it raises
    [ZeroDivisionError] before any call. Otherwise an exception it ends
    with is one raised by [model.train] or [model.evaluate] in one of its
    [train_epochs // epochs_per_eval] iterations: printing the metrics
    never raises [KeyError]. When no call raises, the loop ends
    normally. *)
Theorem run_loop_errors {V : Type} (fl : flags) (train_exc : nat -> option string)
    (eval_out : nat -> string + gmap string V) :
  (epochs_per_eval fl = 0 ->
     run_loop fl train_exc eval_out = ([], Some ZeroDivisionError)) /\
  (forall err, epochs_per_eval fl <> 0 ->
     (run_loop fl train_exc eval_out).2 = Some err ->
     exists n x, (n < Z.to_nat (train_epochs fl / epochs_per_eval fl))%nat /\
       (train_exc n = Some x \/ (train_exc n = None /\ eval_out n = inl x)) /\
       err = Raised x) /\
  (epochs_per_eval fl <> 0 ->
     (forall n, train_exc n = None /\ exists r, eval_out n = inr r) ->
     (run_loop fl train_exc eval_out).2 = None).
Proof.
  unfold run_loop. split; [|split].
  - intros H. rewrite H. reflexivity.
  - intros err H. apply Z.eqb_neq in H. rewrite H. intros Herr.
    destruct (iterations_error _ _ _ _ err Herr) as (n & x & Hn & Hx & ->).
    apply in_seq in Hn. exists n, x. split; [lia|]. auto.
  - intros H Hok. apply Z.eqb_neq in H. rewrite H. apply iterations_ok. exact Hok.
Qed.

Lemma run_loop_errors_witness :
  (run_loop (Flags 10 3 40 "train" "test")
     (fun n => if Nat.eqb n 1 then Some "NotFoundError" else None)
     (fun _ => inr (∅ : gmap string nat))).2 = Some (Raised "NotFoundError") /\
  exists n x, (n < Z.to_nat (10 / 3))%nat /\
    ((if Nat.eqb n 1 then Some "NotFoundError" else None) = Some x \/
     ((if Nat.eqb n 1 then Some "NotFoundError" else None) = None /\
      (inr (∅ : gmap string nat) : string + gmap string nat) = inl x)) /\
    Raised "NotFoundError" = Raised x.
Proof.
  assert (H : (run_loop (Flags 10 3 40 "train" "test")
     (fun n => if Nat.eqb n 1 then Some "NotFoundError" else None)
     (fun _ => inr (∅ : gmap string nat))).2 = Some (Raised "NotFoundError"))
    by (vm_compute; reflexivity).
  split; [exact H|].
  refine (proj1 (proj2 (run_loop_errors (Flags 10 3 40 "train" "test")
            (fun n => if Nat.eqb n 1 then Some "NotFoundError" else None)
            (fun _ => inr (∅ : gmap string nat)))) _ _ H).
  simpl. lia.
Defined.

(** With positive [epochs_per_eval] and non-negative [train_epochs], the
    loop trains [train_epochs // epochs_per_eval] times [epochs_per_eval]
    epochs: never more than [train_epochs], and short of it by less than
    [epochs_per_eval] (the remainder is not trained). *)
Theorem train_and_evaluate_epochs {V : Type} (fl : flags)
    (eval_results : nat -> gmap string V) :
  0 < epochs_per_eval fl -> 0 <= train_epochs fl ->
  trained_epochs (train_and_evaluate fl eval_results).1
    = train_epochs fl / epochs_per_eval fl * epochs_per_eval fl /\
  train_epochs fl - epochs_per_eval fl
    < trained_epochs (train_and_evaluate fl eval_results).1 <= train_epochs fl.
Proof.
  intros Hp Hn. unfold train_and_evaluate, run_loop.
  destruct (Z.eqb_spec (epochs_per_eval fl) 0) as [E|_]; [lia|].
  rewrite trained_epochs_iterations, length_seq.
  assert (Hq : 0 <= train_epochs fl / epochs_per_eval fl) by (apply Z.div_pos; lia).
  rewrite Z2Nat.id by exact Hq.
  pose proof (Z.div_mod (train_epochs fl) (epochs_per_eval fl) ltac:(lia)).
  pose proof (Z.mod_pos_bound (train_epochs fl) (epochs_per_eval fl) Hp).
  split; [reflexivity|]. nia.
Qed.

Lemma train_and_evaluate_epochs_witness :
  0 < epochs_per_eval (Flags 10 3 40 "train" "test") /\
  0 <= train_epochs (Flags 10 3 40 "train" "test") /\
  (trained_epochs (train_and_evaluate (Flags 10 3 40 "train" "test")
                     (fun _ => ∅ : gmap string nat)).1
     = train_epochs (Flags 10 3 40 "train" "test")
       / epochs_per_eval (Flags 10 3 40 "train" "test")
       * epochs_per_eval (Flags 10 3 40 "train" "test") /\
   train_epochs (Flags 10 3 40 "train" "test")
     - epochs_per_eval (Flags 10 3 40 "train" "test")
   < trained_epochs (train_and_evaluate (Flags 10 3 40 "train" "test")
                       (fun _ => ∅ : gmap string nat)).1
   <= train_epochs (Flags 10 3 40 "train" "test")).
Proof.
  split; [simpl; lia|]. split; [simpl; lia|].
  apply train_and_evaluate_epochs; simpl; lia.
Defined.

Lemma epochs_prefix_app {V : Type} (acc : Z) (b r : list (event V)) :
  (forall t1 e t2, b = t1 ++ PrintEpoch e :: t2 -> e = acc + trained_epochs t1) ->
  (forall t1 e t2, r = t1 ++ PrintEpoch e :: t2 ->
     e = acc + trained_epochs b + trained_epochs t1) ->
  forall t1 e t2, b ++ r = t1 ++ PrintEpoch e :: t2 -> e = acc + trained_epochs t1.
Proof.
  intros Hb Hr t1 e t2 H.
  apply app_eq_inv in H as [(k & Hb1 & Hk)|(k & Ht1 & Hr1)].
  - destruct k as [|x k]; simpl in Hk.
    + rewrite app_nil_r in Hb1. subst b. symmetry in Hk.
      rewrite (Hr [] e t2 Hk). simpl. lia.
    + injection Hk as <- _. exact (Hb t1 e k Hb1).
  - subst t1. rewrite (Hr k e t2 Hr1), trained_epochs_app. lia.
Qed.

Lemma epochs_prefix_body {V : Type} (fl : flags) (results : gmap string V) (n : nat) :
  forall t1 e t2, (loop_body fl None (inr results) n).1 = t1 ++ PrintEpoch e :: t2 ->
  e = Z.of_nat n * epochs_per_eval fl + trained_epochs t1.
Proof.
  destruct (loop_body_shape fl results n) as (t & -> & _ & Hall).
  intros t1 e t2 H. simpl in H.
  destruct t1 as [|a [|b [|c [|d t1]]]]; simpl in H; try discriminate.
  - injection H as <- <- <- _. simpl. lia.
  - injection H as _ _ _ _ Ht.
    assert (Hin : PrintEpoch e ∈ t) by (rewrite Ht; apply elem_of_app; right; left).
    rewrite Forall_forall in Hall. destruct (Hall _ Hin) as (k & v & Heq).
    discriminate.
Qed.

Lemma epochs_prefix_iterations {V : Type} (fl : flags)
    (eval_results : nat -> gmap string V) (k : nat) :
  forall s t1 e t2,
  (run_iterations fl (fun _ => None) (fun n => inr (eval_results n)) (seq s k)).1
    = t1 ++ PrintEpoch e :: t2 ->
  e = Z.of_nat s * epochs_per_eval fl + trained_epochs t1.
Proof.
  induction k as [|k IH]; intros s t1 e t2 H; [destruct t1; discriminate|].
  simpl seq in H. rewrite run_iterations_cons in H. cbn [fst] in H.
  revert t1 e t2 H. apply epochs_prefix_app.
  - apply epochs_prefix_body.
  - intros t1 e t2 H. rewrite (IH (S s) t1 e t2 H), trained_epochs_body. lia.
Qed.

(** The epoch printed after each evaluation, [(n + 1) * epochs_per_eval],
    is the number of epochs all training calls made so far asked for. *)
Theorem train_and_evaluate_epoch_labels {V : Type} (fl : flags)
    (eval_results : nat -> gmap string V) (t1 t2 : list (event V)) (e : Z) :
  (train_and_evaluate fl eval_results).1 = t1 ++ PrintEpoch e :: t2 ->
  e = trained_epochs t1.
Proof.
  unfold train_and_evaluate, run_loop. destruct (Z.eqb (epochs_per_eval fl) 0).
  - simpl. destruct t1; discriminate.
  - intros H. rewrite (epochs_prefix_iterations fl eval_results _ 0 t1 e t2 H).
    lia.
Qed.

Lemma train_and_evaluate_epoch_labels_witness :
  (train_and_evaluate (Flags 10 3 40 "train" "test") (fun _ => ∅ : gmap string nat)).1
    = [Train "train" 3 true 40; Evaluate "test" 1 false 40] ++ PrintEpoch 3 ::
      [PrintRule; Train "train" 3 true 40; Evaluate "test" 1 false 40;
       PrintEpoch 6; PrintRule; Train "train" 3 true 40; Evaluate "test" 1 false 40;
       PrintEpoch 9; PrintRule] /\
  3 = trained_epochs [Train "train" 3 true 40; Evaluate "test" 1 false 40 : event nat].
Proof.
  assert (H : (train_and_evaluate (Flags 10 3 40 "train" "test")
                 (fun _ => ∅ : gmap string nat)).1
    = [Train "train" 3 true 40; Evaluate "test" 1 false 40] ++ PrintEpoch 3 ::
      [PrintRule; Train "train" 3 true 40; Evaluate "test" 1 false 40;
       PrintEpoch 6; PrintRule; Train "train" 3 true 40; Evaluate "test" 1 false 40;
       PrintEpoch 9; PrintRule]) by (vm_compute; reflexivity).
  split; [exact H|].
  exact (train_and_evaluate_epoch_labels _ _ _ _ _ H).
Defined.

(** In an iteration where [model.train] returns and [model.evaluate]
    returns the dict [results], the metric lines name each key of
    [results] exactly once, in ascending order, each with its value, and
    the rest of the iteration raises nothing. *)
Theorem loop_body_metrics {V : Type} (fl : flags) (results : gmap string V) (n : nat) :
  (loop_body fl None (inr results) n).2 = None /\
  Sorted string_le (metric_keys (loop_body fl None (inr results) n).1) /\
  NoDup (metric_keys (loop_body fl None (inr results) n).1) /\
  (forall k, k ∈ metric_keys (loop_body fl None (inr results) n).1
             <-> is_Some (results !! k)) /\
  (forall k v, PrintMetric k v ∈ (loop_body fl None (inr results) n).1 ->
               results !! k = Some v).
Proof.
  destruct (loop_body_shape fl results n) as (t & -> & Ht & _). simpl.
  destruct (print_metrics_ok results _ (sorted_keys_present results))
    as (_ & Hk & _ & Hval).
  destruct (sorted_keys_spec results) as (Hs & Hnd & Hmem).
  rewrite <- Ht in Hk, Hval. rewrite Hk.
  split; [reflexivity|]. split; [exact Hs|]. split; [exact Hnd|].
  split; [exact Hmem|].
  intros k v Hin.
  repeat (apply elem_of_cons in Hin as [Hin|Hin]; [discriminate|]).
  by apply Hval.
Qed.

End WideDeepTrainingFacts.
